(** * TransmonPocket6Rounded: geometry assembly of
      [qiskit_metal/qlibrary/qubits/transmon_pocket_6_rounded.py]

    The module builds planar shapes by calling a geometry library (shapely,
    through [qiskit_metal.draw]) and registers them with the host component.
    The embedding follows the source:

    - lengths are Python floats in the source; here they are exact canonical
      rationals [Qc], so [float(x)] is the identity and comparisons are
      decidable and computable. The model covers the runs in which the host
      has parsed every option to a finite number: an option left as a text
      that [float] cannot read (it raises [ValueError], source line 183) and
      non-finite values are not represented;
    - every call into the geometry library is a constructor of [geom]: the
      library is a black box, and two shapes are equal here only when they are
      built by the same calls on the same arguments;
    - the component methods thread the component ([self]) through a small
      state-and-exception monad [M]. *)

From Stdlib Require Import QArith Qcanon ZArith.
From stdpp Require Import base decidable option numbers strings list.

Local Open Scope Qc_scope.

(** ** Numbers *)

(** [float(x)] on a value the host has parsed to a finite number. On a text
    it cannot read, the source's [float] raises [ValueError]; such options
    have no counterpart in [Qc], so no statement below speaks of them. *)
Definition float (x : Qc) : Qc := x.

(** The literal [0.5]. *)
Definition half : Qc := Q2Qc (1 # 2).

(** Python's two-argument [min(a, b)]: [b] when [b < a], otherwise [a]. *)
Definition py_min (a b : Qc) : Qc :=
  if bool_decide (b < a) then b else a.

(** Python's [x in xs] on a list of numbers. *)
Definition py_in (x : Qc) (xs : list Qc) : bool := bool_decide (x ∈ xs).

(** ** The geometry library *)

Definition point : Type := Qc * Qc.

(** shapely's [JOIN_STYLE] codes, as passed by [join_style=...]. *)
Module JOIN_STYLE.
Definition round : Z := 1.
Definition mitre : Z := 2.
Definition bevel : Z := 3.
End JOIN_STYLE.

(** One constructor per library call used by the source.
    [box minx miny maxx maxy] is [shapely.geometry.box];
    [buffer g d js] is [g.buffer(d, join_style=js)];
    [LineString] covers both [draw.LineString] and the [draw.wkt.loads] of a
    [LINESTRING (...)] text; the others are the [draw] transforms applied to
    one shape. *)
Inductive geom : Type :=
| box (minx miny maxx maxy : Qc)
| buffer (g : geom) (distance : Qc) (join_style : Z)
| LineString (coords : list point)
| translate (g : geom) (xoff yoff : Qc)
| scale (g : geom) (xfact yfact : Qc) (origin : point)
| rotate (g : geom) (angle : Qc) (origin : point)
| rotate_position (g : geom) (angle : Qc) (pos : point).

(** The [draw] transforms accept a list of shapes and act on each one. *)
Definition translate_all (gs : list geom) (xoff yoff : Qc) : list geom :=
  (λ g, translate g xoff yoff) <$> gs.
Definition scale_all (gs : list geom) (xfact yfact : Qc) (origin : point)
  : list geom := (λ g, scale g xfact yfact origin) <$> gs.
Definition rotate_all (gs : list geom) (angle : Qc) (origin : point)
  : list geom := (λ g, rotate g angle origin) <$> gs.
Definition rotate_position_all (gs : list geom) (angle : Qc) (pos : point)
  : list geom := (λ g, rotate_position g angle pos) <$> gs.

(** The four corners of an axis-aligned box, counter-clockwise from the
    lower-left one; [None] for any other shape. *)
Definition corners (g : geom) : option (list point) :=
  match g with
  | box minx miny maxx maxy =>
      Some [(minx, miny); (maxx, miny); (maxx, maxy); (minx, maxy)]
  | _ => None
  end.

(** Horizontal extent [(minx, maxx)] of an axis-aligned box. *)
Definition x_extent (g : geom) : option (Qc * Qc) :=
  match g with
  | box minx _ maxx _ => Some (minx, maxx)
  | _ => None
  end.

(** An interval is symmetric about the y-axis when it is [[-a, a]]. *)
Definition symmetric_about_y (e : Qc * Qc) : bool :=
  bool_decide (e.1 = - e.2).

(** ** The host's rectangle *)


(** ** [_rounded_rectangle] *)

Definition _rounded_rectangle (width height xoff yoff radius : Qc) : geom :=
  let w := float width in
  let h := float height in
  let r := float radius in
  if bool_decide (r ≤ 0) then
    let xmin := float xoff in
    let xmax := xmin + w in
    let ymax := float yoff in
    let ymin := ymax - h in
    box xmin ymin xmax ymax
  else
    let r := py_min r (half * py_min w h) in
    let xmin := float xoff in
    let xmax := xmin + w in
    let ymax := float yoff in
    let ymin := ymax - h in
    let rect := box xmin ymin xmax ymax in
    let rounded :=
      buffer (buffer rect (- r) 2%Z) r 1%Z in
    rounded.

(** ** Parsed options ([self.p]) *)

(** Options of one connection pad ([self.p.connection_pads[name]]). *)
Module conn.
Record t : Type := mk {
  pad_gap : Qc;
  pad_width : Qc;
  pad_height : Qc;
  pad_cpw_shift : Qc;
  pad_cpw_extent : Qc;
  cpw_width : Qc;
  cpw_gap : Qc;
  cpw_extend : Qc;
  pocket_extent : Qc;
  pocket_rise : Qc;
  loc_W : Qc;
  loc_H : Qc;
}.
End conn.

(** Options of the component. The three per-class radii are [None] unless
    overridden; [pos_x], [pos_y] and [orientation] are inherited from the
    base component. [connection_pads] is a dict: an association list in
    insertion order. *)
Module opts.
Record t : Type := mk {
  pad_gap : Qc;
  inductor_width : Qc;
  pad_width : Qc;
  pad_height : Qc;
  pocket_width : Qc;
  pocket_height : Qc;
  corner_radius : Qc;
  pad_corner_radius : option Qc;
  pocket_corner_radius : option Qc;
  connector_corner_radius : option Qc;
  connection_pads : list (string * conn.t);
  pos_x : Qc;
  pos_y : Qc;
  orientation : Qc;
}.
End opts.

(** [d[name]] on a dict kept as an association list. *)
Fixpoint dict_get {V : Type} (d : list (string * V)) (name : string)
  : option V :=
  match d with
  | [] => None
  | (k, v) :: d' => if bool_decide (k = name) then Some v else dict_get d' name
  end.

(** ** The component and its host services *)

(** One row added by [add_qgeometry(kind, {name: geometry}, subtract=...,
    width=...)]. *)
Record qgeometry_row : Type := mk_row {
  row_kind : string;
  row_name : string;
  row_geometry : geom;
  row_subtract : bool;
  row_width : option Qc;
}.

(** One call of [add_pin(name, points=points[-2:], width=..,
    input_as_norm=..)]: the points are the last two coordinates of
    [pin_path]. *)
Record pin_row : Type := mk_pin {
  pin_name : string;
  pin_path : geom;
  pin_width : Qc;
  pin_input_as_norm : bool;
}.

(** One call of [self.logger.<level>(msg, *args)]. *)
Record log_row : Type := mk_log {
  log_level : string;
  log_msg : string;
  log_args : list Qc;
}.

Record component : Type := mk_component {
  self_p : opts.t;
  self_qgeometry : list qgeometry_row;
  self_pins : list pin_row;
  self_logger : list log_row;
}.

(** [AttributeError attr]: the attribute [attr] was read on [None]. *)
Inductive exn : Type :=
| AttributeError (attr : string)
| ValueError.

Inductive result (A : Type) : Type :=
| Ok (a : A) (self : component)
| Raise (e : exn).
Arguments Ok {A} a self.
Arguments Raise {A} e.

(** Methods of the component: they read and update [self], or raise. The
    state in which a raised exception leaves the component is not kept. *)
Definition M (A : Type) : Type := component → result A.

Global Instance M_ret : MRet M := λ A a self, Ok a self.
Global Instance M_bind : MBind M :=
  λ A B k m self, match m self with
                  | Ok a self' => k a self'
                  | Raise e => Raise e
                  end.
Definition raise {A} (e : exn) : M A := λ _, Raise e.

Definition get_p : M opts.t := λ self, Ok (self_p self) self.

Definition add_qgeometry (kind : string) (geometry : list (string * geom))
    (subtract : bool) (width : option Qc) : M unit :=
  λ self,
    Ok tt (mk_component (self_p self)
             (self_qgeometry self ++
                ((λ kv, mk_row kind kv.1 kv.2 subtract width) <$> geometry))
             (self_pins self) (self_logger self)).

Definition add_pin (name : string) (path : geom) (width : Qc)
    (input_as_norm : bool) : M unit :=
  λ self,
    Ok tt (mk_component (self_p self) (self_qgeometry self)
             (self_pins self ++ [mk_pin name path width input_as_norm])
             (self_logger self)).

Definition logger_info (msg : string) (args : list Qc) : M unit :=
  λ self,
    Ok tt (mk_component (self_p self) (self_qgeometry self) (self_pins self)
             (self_logger self ++ [mk_log "info" msg args])).

(** ** [TransmonPocket6Rounded] *)

Definition _get_radii (p : opts.t) : Qc * Qc * Qc :=
  let base := float (opts.corner_radius p) in
  let pad_r := match opts.pad_corner_radius p with
               | None => base
               | Some v => float v
               end in
  let pk_r := match opts.pocket_corner_radius p with
              | None => base
              | Some v => float v
              end in
  let cn_r := match opts.connector_corner_radius p with
              | None => base
              | Some v => float v
              end in
  (pad_r, pk_r, cn_r).

(** The four shapes of [make_pocket] as listed in [polys], before the
    rotation and translation of the component (source lines 134-157). *)
Definition pocket_polys (p : opts.t) : list geom :=
  let '(pad_r, pk_r, _) := _get_radii p in
  let pad_width := opts.pad_width p in
  let pad_height := opts.pad_height p in
  let pad_gap := opts.pad_gap p in
  let pad := _rounded_rectangle pad_width pad_height
               ((- pad_width) / 2) (pad_height / 2) pad_r in
  let pad_top := translate pad 0 ((pad_height + pad_gap) / 2) in
  let pad_bot := translate pad 0 ((- (pad_height + pad_gap)) / 2) in
  let rect_jj := LineString [(0, (- pad_gap) / 2); (0, pad_gap / 2)] in
  let rect_pk := _rounded_rectangle (opts.pocket_width p) (opts.pocket_height p)
                   ((- opts.pocket_width p) / 2) (opts.pocket_height p / 2)
                   pk_r in
  [rect_jj; pad_top; pad_bot; rect_pk].

Definition make_pocket : M unit :=
  p ← get_p;
  let polys := pocket_polys p in
  let polys := rotate_all polys (opts.orientation p) (0, 0) in
  let polys := translate_all polys (opts.pos_x p) (opts.pos_y p) in
  match polys with
  | [rect_jj; pad_top; pad_bot; rect_pk] =>
      add_qgeometry "poly" [("pad_top", pad_top); ("pad_bot", pad_bot)]
        false None;;
      add_qgeometry "poly" [("rect_pk", rect_pk)] true None;;
      add_qgeometry "junction" [("rect_jj", rect_jj)] false
        (Some (opts.inductor_width p))
  | _ => raise ValueError
  end.

(** The connector pad and its wire path as listed in [objects], before the
    mirroring, translation and rotation (source lines 175-225). The text
    handed to [draw.wkt.loads] is read back as the four points it spells. *)
Definition connection_pad_objects (p : opts.t) (pc : conn.t) (cn_r : Qc)
  : list geom :=
  let cpw_width := conn.cpw_width pc in
  let cpw_extend := conn.cpw_extend pc in
  let pad_width := conn.pad_width pc in
  let pad_height := conn.pad_height pc in
  let pad_cpw_shift := conn.pad_cpw_shift pc in
  let pocket_rise := conn.pocket_rise pc in
  let pocket_extent := conn.pocket_extent pc in
  let loc_W := float (conn.loc_W pc) in
  let '(connector_pad, connector_wire_path) :=
    if bool_decide (loc_W ≠ 0) then
      (_rounded_rectangle pad_width pad_height
         ((- pad_width) / 2) (pad_height / 2) cn_r,
       LineString
         [(0, pad_cpw_shift + cpw_width / 2);
          (conn.pad_cpw_extent pc, pad_cpw_shift + cpw_width / 2);
          ((opts.pocket_width p - opts.pad_width p) / 2 - pocket_extent,
           pad_cpw_shift + cpw_width / 2 + pocket_rise);
          ((opts.pocket_width p - opts.pad_width p) / 2 + cpw_extend,
           pad_cpw_shift + cpw_width / 2 + pocket_rise)])
    else
      (_rounded_rectangle pad_width pad_height
         0 (pad_height / 2) cn_r,
       LineString
         [(0, pad_height);
          (0,
           (opts.pocket_width p / 2 - opts.pad_height p
            - opts.pad_gap p / 2 - conn.pad_gap pc) + cpw_extend)])
  in
  [connector_pad; connector_wire_path].

Definition loc_warning : string :=
  "Warning: loc_W should be -1, 0, +1 and loc_H should be -1, +1. You set loc_W=%s loc_H=%s".

(** [self.p.connection_pads[name]] goes through the host's view of the parsed
    options, which yields [None] for a name that is not a key (and reports it
    on its own side); the first attribute then read on it, [pc.cpw_width] at
    source line 175, raises [AttributeError]. *)
Definition make_connection_pad (name : string) : M unit :=
  p ← get_p;
  pc ← match dict_get (opts.connection_pads p) name with
       | Some pc => mret pc
       | None => raise (AttributeError "cpw_width")
       end;
  let '(_, _, cn_r) := _get_radii p in
  let cpw_width := conn.cpw_width pc in
  let loc_W := float (conn.loc_W pc) in
  let loc_H := float (conn.loc_H pc) in
  (if negb (py_in loc_W [-1; 1; 0]) || negb (py_in loc_H [-1; 1])
   then logger_info loc_warning [loc_W; loc_H]
   else mret tt);;
  let objects := connection_pad_objects p pc cn_r in
  let loc_Woff := if bool_decide (loc_W = 0) then 1 else loc_W in
  let objects := scale_all objects loc_Woff loc_H (0, 0) in
  let objects :=
    translate_all objects
      (loc_W * opts.pad_width p / 2)
      (loc_H * (opts.pad_height p + opts.pad_gap p / 2 + conn.pad_gap pc)) in
  let objects :=
    rotate_position_all objects (opts.orientation p)
      (opts.pos_x p, opts.pos_y p) in
  match objects with
  | [connector_pad; connector_wire_path] =>
      add_qgeometry "poly" [(name +:+ "_connector_pad", connector_pad)]
        false None;;
      add_qgeometry "path" [(name +:+ "_wire", connector_wire_path)]
        false (Some cpw_width);;
      add_qgeometry "path" [(name +:+ "_wire_sub", connector_wire_path)]
        true (Some (cpw_width + 2 * conn.cpw_gap pc));;
      add_pin name connector_wire_path cpw_width true
  | _ => raise ValueError
  end.

(** [for name in self.options.connection_pads: self.make_connection_pad(name)] *)
Fixpoint for_each (names : list string) (body : string → M unit) : M unit :=
  match names with
  | [] => mret tt
  | name :: names' => body name;; for_each names' body
  end.

Definition make_connection_pads : M unit :=
  p ← get_p;
  for_each (opts.connection_pads p).*1 make_connection_pad.

Definition make : M unit :=
  make_pocket;;
  make_connection_pads.

(** ** Default options *)

(** A length given in micrometres, parsed to the design unit (mm). *)
Definition um (n : Z) : Qc := Q2Qc (n # 1000).

Definition _default_connection_pads : conn.t :=
  conn.mk (um 15) (um 125) (um 30) (um 0) (um 25) (um 10) (um 6) (um 100)
          (um 5) (um 0) 1 1.

Definition default_options : opts.t :=
  opts.mk (um 30) (um 20) (um 455) (um 90) (um 650) (um 650)
          (um 0) None None None [] 0 0 0.

(** A fresh component with the given parsed options. *)
Definition new_component (p : opts.t) : component :=
  mk_component p [] [] [].

(** Field updates used to state the effect of one option. *)
Definition set_loc (loc_W loc_H : Qc) (pc : conn.t) : conn.t :=
  conn.mk (conn.pad_gap pc) (conn.pad_width pc) (conn.pad_height pc)
          (conn.pad_cpw_shift pc) (conn.pad_cpw_extent pc)
          (conn.cpw_width pc) (conn.cpw_gap pc) (conn.cpw_extend pc)
          (conn.pocket_extent pc) (conn.pocket_rise pc) loc_W loc_H.

Definition set_radii (corner : Qc) (pad pocket connector : option Qc)
    (p : opts.t) : opts.t :=
  opts.mk (opts.pad_gap p) (opts.inductor_width p) (opts.pad_width p)
          (opts.pad_height p) (opts.pocket_width p) (opts.pocket_height p)
          corner pad pocket connector
          (opts.connection_pads p) (opts.pos_x p) (opts.pos_y p)
          (opts.orientation p).

Definition set_connection_pads (pads : list (string * conn.t)) (p : opts.t)
  : opts.t :=
  opts.mk (opts.pad_gap p) (opts.inductor_width p) (opts.pad_width p)
          (opts.pad_height p) (opts.pocket_width p) (opts.pocket_height p)
          (opts.corner_radius p) (opts.pad_corner_radius p)
          (opts.pocket_corner_radius p) (opts.connector_corner_radius p)
          pads (opts.pos_x p) (opts.pos_y p) (opts.orientation p).

(** ** Shapes as placed by the methods *)

(** Rotation and translation of the component, as applied to each shape of
    [polys] in [make_pocket]. *)
Definition pocket_placed (p : opts.t) (g : geom) : geom :=
  translate (rotate g (opts.orientation p) (0, 0)) (opts.pos_x p) (opts.pos_y p).

(** Mirroring, translation and rotation as applied to each shape of
    [objects] in [make_connection_pad] (source lines 228-236). *)
Definition connector_placed (p : opts.t) (pc : conn.t) (g : geom) : geom :=
  let loc_W := conn.loc_W pc in
  let loc_H := conn.loc_H pc in
  let loc_Woff := if bool_decide (loc_W = 0) then 1 else loc_W in
  rotate_position
    (translate (scale g loc_Woff loc_H (0, 0))
       (loc_W * opts.pad_width p / 2)
       (loc_H * (opts.pad_height p + opts.pad_gap p / 2 + conn.pad_gap pc)))
    (opts.orientation p) (opts.pos_x p, opts.pos_y p).

(** The test guarding the warning (source line 184), negated. *)
Definition flags_in_range (pc : conn.t) : bool :=
  py_in (conn.loc_W pc) [-1; 1; 0] && py_in (conn.loc_H pc) [-1; 1].

(** A component with one connection pad named [a]. *)
Definition one_pad_component (pc : conn.t) : component :=
  new_component (set_connection_pads [("a", pc)] default_options).

(** A component with two connection pads, [a] and [b]. *)
Definition two_pad_component (pa pb : conn.t) : component :=
  new_component (set_connection_pads [("a", pa); ("b", pb)] default_options).

(** ** What the methods append *)

(** The rows appended by [make_pocket] (source lines 157-164). *)
Definition pocket_rows (p : opts.t) : list qgeometry_row :=
  match pocket_placed p <$> pocket_polys p with
  | [rect_jj; pad_top; pad_bot; rect_pk] =>
      [mk_row "poly" "pad_top" pad_top false None;
       mk_row "poly" "pad_bot" pad_bot false None;
       mk_row "poly" "rect_pk" rect_pk true None;
       mk_row "junction" "rect_jj" rect_jj false
         (Some (opts.inductor_width p))]
  | _ => []
  end.

(** The rows appended by [make_connection_pad] for the connector [name] with
    options [pc] (source lines 225-246). *)
Definition connector_rows (p : opts.t) (name : string) (pc : conn.t)
  : list qgeometry_row :=
  match connector_placed p pc <$> connection_pad_objects p pc (_get_radii p).2
  with
  | [connector_pad; connector_wire_path] =>
      [mk_row "poly" (name +:+ "_connector_pad") connector_pad false None;
       mk_row "path" (name +:+ "_wire") connector_wire_path false
         (Some (conn.cpw_width pc));
       mk_row "path" (name +:+ "_wire_sub") connector_wire_path true
         (Some (conn.cpw_width pc + 2 * conn.cpw_gap pc))]
  | _ => []
  end.

(** The pin appended by [make_connection_pad] (source lines 249-250). *)
Definition connector_pins (p : opts.t) (name : string) (pc : conn.t)
  : list pin_row :=
  match connector_placed p pc <$> connection_pad_objects p pc (_get_radii p).2
  with
  | [_; connector_wire_path] =>
      [mk_pin name connector_wire_path (conn.cpw_width pc) true]
  | _ => []
  end.

(** The log record appended by [make_connection_pad] (source lines
    184-188). *)
Definition warning_rows (pc : conn.t) : list log_row :=
  if flags_in_range pc then []
  else [mk_log "info" loc_warning [conn.loc_W pc; conn.loc_H pc]].

(** The same, for the connectors [names] looked up in the options. *)
Definition over_connectors {A : Type} (p : opts.t)
    (f : string → conn.t → list A) (names : list string) : list A :=
  names ≫= λ name,
    match dict_get (opts.connection_pads p) name with
    | Some pc => f name pc
    | None => []
    end.

(** ** Reading shapes *)

(** Whether a [buffer] call occurs in the construction of a shape. *)
Fixpoint uses_buffer (g : geom) : bool :=
  match g with
  | box _ _ _ _ => false
  | LineString _ => false
  | buffer _ _ _ => true
  | translate g _ _ => uses_buffer g
  | scale g _ _ _ => uses_buffer g
  | rotate g _ _ => uses_buffer g
  | rotate_position g _ _ => uses_buffer g
  end.

(** The shape a chain of transforms is applied to. *)
Fixpoint base_shape (g : geom) : geom :=
  match g with
  | translate g _ _ => base_shape g
  | scale g _ _ _ => base_shape g
  | rotate g _ _ => base_shape g
  | rotate_position g _ _ => base_shape g
  | _ => g
  end.

(** Whether a shape is a line string, possibly transformed. *)
Definition is_line (g : geom) : bool :=
  match base_shape g with
  | LineString _ => true
  | _ => false
  end.

(** Whether a shape is a polygon, possibly transformed: a box or the result
    of a buffer. *)
Definition is_polygon (g : geom) : bool :=
  match base_shape g with
  | box _ _ _ _ => true
  | buffer _ _ _ => true
  | _ => false
  end.

(** * Properties *)

(** ** Arithmetic of the radius clamp *)

Lemma py_min_l (a b : Qc) : a ≤ b → py_min a b = a.
Proof.
  intros Hab. unfold py_min. case_bool_decide as Hlt; [|done].
  by apply Qclt_not_le in Hlt.
Qed.

Lemma py_min_r (a b : Qc) : b < a → py_min a b = b.
Proof. intros Hlt. unfold py_min. by rewrite bool_decide_eq_true_2. Qed.

Lemma py_min_le_l (a b : Qc) : py_min a b ≤ a.
Proof.
  unfold py_min. case_bool_decide as Hlt; [by apply Qclt_le_weak|done].
Qed.

Lemma py_min_le_r (a b : Qc) : py_min a b ≤ b.
Proof.
  unfold py_min. case_bool_decide as Hlt; [done|by apply Qcnot_lt_le].
Qed.

Lemma py_min_glb (a b c : Qc) : c ≤ a → c ≤ b → c ≤ py_min a b.
Proof. intros Ha Hb. unfold py_min. by case_bool_decide. Qed.

Lemma py_min_pos (a b : Qc) : 0 < a → 0 < b → 0 < py_min a b.
Proof. intros Ha Hb. unfold py_min. by case_bool_decide. Qed.

Lemma half_pos : 0 < half.
Proof. done. Qed.

Lemma half_mult (x : Qc) : half * x = x / 2.
Proof.
  unfold half. apply Qc_is_canon. unfold Qcdiv, Qcinv, Qcmult, Qcplus. simpl.
  rewrite !Qred_correct. field.
Qed.

(** ** The rounded-rectangle builder *)

Lemma rounded_rectangle_sharp (width height xoff yoff radius : Qc) :
  radius ≤ 0 →
  _rounded_rectangle width height xoff yoff radius
  = box xoff (yoff - height) (xoff + width) yoff.
Proof.
  intros Hr. unfold _rounded_rectangle, float.
  by rewrite bool_decide_eq_true_2.
Qed.

Lemma rounded_rectangle_rounded (width height xoff yoff radius : Qc) :
  0 < radius →
  _rounded_rectangle width height xoff yoff radius
  = let r := py_min radius (half * py_min width height) in
    buffer (buffer (box xoff (yoff - height) (xoff + width) yoff)
                   (- r) JOIN_STYLE.mitre)
           r JOIN_STYLE.round.
Proof.
  intros Hr. unfold _rounded_rectangle, float.
  rewrite bool_decide_eq_false_2; [done|by apply Qclt_not_le].
Qed.

Lemma half_min_pos (width height : Qc) :
  0 < width → 0 < height → 0 < py_min width height / 2.
Proof.
  intros Hw Hh. rewrite <-half_mult, Qcmult_comm.
  rewrite <-(Qcmult_0_l half).
  apply Qcmult_lt_compat_r; [apply half_pos|by apply py_min_pos].
Qed.




(** C3. For positive width and height, any radius above half the shorter
    side gives exactly the output obtained with half the shorter side. *)
Theorem radius_clamp (width height xoff yoff r1 : Qc) :
  0 < width → 0 < height → py_min width height / 2 < r1 →
  _rounded_rectangle width height xoff yoff r1
  = _rounded_rectangle width height xoff yoff (py_min width height / 2).
Proof.
  intros Hw Hh Hr1.
  pose proof (half_min_pos width height Hw Hh) as Hm.
  rewrite !rounded_rectangle_rounded; [|done|by eapply Qclt_trans].
  cbn zeta. rewrite half_mult.
  rewrite (py_min_r r1) by done.
  by rewrite (py_min_l (py_min width height / 2)) by apply Qcle_refl.
Qed.

Lemma radius_clamp_witness :
  0 < um 455 ∧ 0 < um 90 ∧ py_min (um 455) (um 90) / 2 < um 60
  ∧ _rounded_rectangle (um 455) (um 90) 0 0 (um 60)
    = _rounded_rectangle (um 455) (um 90) 0 0 (py_min (um 455) (um 90) / 2).
Proof.
  assert (H1 : 0 < um 455) by done.
  assert (H2 : 0 < um 90) by done.
  assert (H3 : py_min (um 455) (um 90) / 2 < um 60) by done.
  exact (conj H1 (conj H2 (conj H3
           (radius_clamp (um 455) (um 90) 0 0 (um 60) H1 H2 H3)))).
Defined.

(** C6. For positive width, height and radius the builder makes the
    axis-aligned rectangle from the offsets, shrinks it by the clamped radius
    with the mitre join, grows the result by the same radius with the round
    join, and returns that shape as it is. The clamped radius is the smaller
    of the radius and half the shorter side. *)
Theorem rounded_rectangle_erode_dilate (width height xoff yoff radius : Qc) :
  0 < width → 0 < height → 0 < radius →
  let rect := box xoff (yoff - height) (xoff + width) yoff in
  let r := py_min radius (py_min width height / 2) in
  let eroded := buffer rect (- r) JOIN_STYLE.mitre in
  let dilated := buffer eroded r JOIN_STYLE.round in
  _rounded_rectangle width height xoff yoff radius = dilated
  ∧ 0 < r ∧ r ≤ radius ∧ r ≤ width / 2 ∧ r ≤ height / 2.
Proof.
  intros Hw Hh Hr. cbn zeta.
  rewrite rounded_rectangle_rounded by done. cbn zeta. rewrite half_mult.
  split; [done|].
  split; [apply py_min_pos; [done|by apply half_min_pos]|].
  split; [apply py_min_le_l|].
  rewrite <-!half_mult.
  split; (eapply Qcle_trans; [apply py_min_le_r|]);
    rewrite !(Qcmult_comm half);
    (apply Qcmult_le_compat_r; [|apply Qclt_le_weak, half_pos]).
  - apply py_min_le_l.
  - apply py_min_le_r.
Qed.

Lemma rounded_rectangle_erode_dilate_witness :
  0 < um 650 ∧ 0 < um 20
  ∧ _rounded_rectangle (um 650) (um 650) (- um 325) (um 325) (um 20)
    = buffer
        (buffer (box (- um 325) (um 325 - um 650) (- um 325 + um 650) (um 325))
                (- py_min (um 20) (py_min (um 650) (um 650) / 2))
                JOIN_STYLE.mitre)
        (py_min (um 20) (py_min (um 650) (um 650) / 2)) JOIN_STYLE.round.
Proof.
  assert (H1 : 0 < um 650) by done.
  assert (H2 : 0 < um 20) by done.
  exact (conj H1 (conj H2
           (proj1 (rounded_rectangle_erode_dilate
                     (um 650) (um 650) (- um 325) (um 325) (um 20)
                     H1 H1 H2)))).
Defined.

(** ** Radius resolution *)

(** C5. Each of the three effective radii is its own override when one is
    given and the global [corner_radius] otherwise; replacing the override of
    one class leaves the radii of the other two classes as they were. *)
Theorem get_radii_resolution
    (p : opts.t) (corner : Qc) (pad pocket connector : option Qc)
    (pad' pocket' connector' : option Qc) :
  _get_radii p
  = (default (opts.corner_radius p) (opts.pad_corner_radius p),
     default (opts.corner_radius p) (opts.pocket_corner_radius p),
     default (opts.corner_radius p) (opts.connector_corner_radius p))
  ∧ (_get_radii (set_radii corner pad pocket connector p)).1.1
    = (_get_radii (set_radii corner pad pocket' connector' p)).1.1
  ∧ (_get_radii (set_radii corner pad pocket connector p)).1.2
    = (_get_radii (set_radii corner pad' pocket connector' p)).1.2
  ∧ (_get_radii (set_radii corner pad pocket connector p)).2
    = (_get_radii (set_radii corner pad' pocket' connector p)).2.
Proof.
  split; [|done].
  unfold _get_radii, float.
  by destruct (opts.pad_corner_radius p), (opts.pocket_corner_radius p),
    (opts.connector_corner_radius p).
Qed.

(** ** Pocket and island pads *)

Lemma make_pocket_run (self : component) :
  let p := self_p self in
  let polys := pocket_placed p <$> pocket_polys p in
  ∃ rect_jj pad_top pad_bot rect_pk,
    polys = [rect_jj; pad_top; pad_bot; rect_pk]
    ∧ make_pocket self
      = Ok tt (mk_component p
                 (self_qgeometry self ++
                    [mk_row "poly" "pad_top" pad_top false None;
                     mk_row "poly" "pad_bot" pad_bot false None;
                     mk_row "poly" "rect_pk" rect_pk true None;
                     mk_row "junction" "rect_jj" rect_jj false
                       (Some (opts.inductor_width p))])
                 (self_pins self) (self_logger self)).
Proof.
  cbn zeta. unfold pocket_polys.
  destruct (_get_radii (self_p self)) as [[pad_r pk_r] cn_r] eqn:Hr.
  eexists _, _, _, _. split; [reflexivity|].
  unfold make_pocket, get_p, mbind, M_bind, pocket_polys.
  rewrite Hr. unfold add_qgeometry, pocket_placed. cbn.
  by rewrite <-!app_assoc.
Qed.

(** C7. In [make_pocket] the top and bottom island pads are translates of
    one rounded pad rectangle, moved along y by [+(pad_height + pad_gap)/2]
    and by [-(pad_height + pad_gap)/2]; the rotation and translation of the
    component are applied afterwards, to the shapes so obtained. *)
Theorem island_pads_translates (self : component) :
  let p := self_p self in
  let pad := _rounded_rectangle (opts.pad_width p) (opts.pad_height p)
               ((- opts.pad_width p) / 2) (opts.pad_height p / 2)
               (_get_radii p).1.1 in
  let d := (opts.pad_height p + opts.pad_gap p) / 2 in
  pocket_polys p !! 1%nat = Some (translate pad 0 d)
  ∧ pocket_polys p !! 2%nat = Some (translate pad 0 (- d))
  ∧ ∃ self',
      make_pocket self = Ok tt self'
      ∧ self_qgeometry self' !! length (self_qgeometry self)
        = Some (mk_row "poly" "pad_top"
                  (pocket_placed p (translate pad 0 d)) false None)
      ∧ self_qgeometry self' !! S (length (self_qgeometry self))
        = Some (mk_row "poly" "pad_bot"
                  (pocket_placed p (translate pad 0 (- d))) false None).
Proof.
  cbn zeta.
  assert (Hopp : ∀ x : Qc, (- x) / 2 = - (x / 2)).
  { intros x. unfold Qcdiv. ring. }
  destruct (make_pocket_run self) as (jj & top & bot & pk & Hpolys & Hrun).
  cbn zeta in Hpolys. revert Hpolys. unfold pocket_polys.
  destruct (_get_radii (self_p self)) as [[pad_r pk_r] cn_r].
  cbn. intros [= <- <- <- <-].
  rewrite <-(Hopp (opts.pad_height (self_p self) + opts.pad_gap (self_p self))).
  do 2 (split; [done|]).
  eexists. split; [exact Hrun|]. cbn.
  split.
  - by rewrite lookup_app_r, Nat.sub_diag by lia.
  - rewrite lookup_app_r by lia.
    by replace (S _ - _)%nat with 1%nat by lia.
Qed.

(** ** Connection pads *)

Lemma connection_pad_objects_pair (p : opts.t) (pc : conn.t) (cn_r : Qc) :
  ∃ connector_pad connector_wire_path,
    connection_pad_objects p pc cn_r = [connector_pad; connector_wire_path].
Proof.
  unfold connection_pad_objects. case_bool_decide; eauto.
Qed.

Lemma make_connection_pad_run (name : string) (pc : conn.t)
    (self : component) (connector_pad connector_wire_path : geom) :
  let p := self_p self in
  dict_get (opts.connection_pads p) name = Some pc →
  connection_pad_objects p pc (_get_radii p).2
  = [connector_pad; connector_wire_path] →
  make_connection_pad name self
  = Ok tt (mk_component p
             (self_qgeometry self ++
                [mk_row "poly" (name +:+ "_connector_pad")
                   (connector_placed p pc connector_pad) false None;
                 mk_row "path" (name +:+ "_wire")
                   (connector_placed p pc connector_wire_path) false
                   (Some (conn.cpw_width pc));
                 mk_row "path" (name +:+ "_wire_sub")
                   (connector_placed p pc connector_wire_path) true
                   (Some (conn.cpw_width pc + 2 * conn.cpw_gap pc))])
             (self_pins self ++
                [mk_pin name (connector_placed p pc connector_wire_path)
                   (conn.cpw_width pc) true])
             (self_logger self ++
                if flags_in_range pc then []
                else [mk_log "info" loc_warning
                        [conn.loc_W pc; conn.loc_H pc]])).
Proof.
  cbn zeta. intros Hget Hobjs.
  unfold make_connection_pad, get_p, mbind, M_bind. rewrite Hget.
  destruct (_get_radii (self_p self)) as [[pad_r pk_r] cn_r].
  cbn [snd] in Hobjs. cbn [mret M_ret]. rewrite Hobjs.
  unfold flags_in_range, float, connector_placed.
  destruct (py_in (conn.loc_W pc) _), (py_in (conn.loc_H pc) _);
    unfold logger_info, add_qgeometry, add_pin; cbn;
    rewrite <-?app_assoc, ?app_nil_r; reflexivity.
Qed.

Lemma flags_out_of_range (pc : conn.t) :
  conn.loc_W pc ∉ [-1; 0; 1] ∨ conn.loc_H pc ∉ [-1; 1] →
  flags_in_range pc = false.
Proof.
  unfold flags_in_range, py_in. intros Hout.
  apply andb_false_iff.
  destruct Hout as [Hout|Hout]; [left|right];
    apply bool_decide_eq_false_2; intros Hin; apply Hout; revert Hin;
    rewrite !elem_of_cons, !elem_of_nil; tauto.
Qed.

(** C4. When a placement flag of a connector is out of range ([loc_W] not
    one of -1, 0, +1, or [loc_H] not one of -1, +1), [make_connection_pad]
    logs the warning message with the two flags, raises nothing, and goes on
    to register the connector's three shapes, scaled by the flags and
    translated by the flags times the offsets, with the flags taken as they
    are (only [loc_W = 0] is replaced, by the scale factor 1). *)
Theorem out_of_range_flags_warn_and_continue
    (name : string) (pc : conn.t) (self : component) :
  let p := self_p self in
  let loc_W := conn.loc_W pc in
  let loc_H := conn.loc_H pc in
  let xfact := if bool_decide (loc_W = 0) then 1 else loc_W in
  let place g :=
    rotate_position
      (translate (scale g xfact loc_H (0, 0))
         (loc_W * opts.pad_width p / 2)
         (loc_H * (opts.pad_height p + opts.pad_gap p / 2 + conn.pad_gap pc)))
      (opts.orientation p) (opts.pos_x p, opts.pos_y p) in
  dict_get (opts.connection_pads p) name = Some pc →
  loc_W ∉ [-1; 0; 1] ∨ loc_H ∉ [-1; 1] →
  ∃ connector_pad connector_wire_path self',
    connection_pad_objects p pc (_get_radii p).2
    = [connector_pad; connector_wire_path]
    ∧ make_connection_pad name self = Ok tt self'
    ∧ self_logger self'
      = self_logger self ++ [mk_log "info" loc_warning [loc_W; loc_H]]
    ∧ row_geometry <$> drop (length (self_qgeometry self)) (self_qgeometry self')
      = [place connector_pad; place connector_wire_path;
         place connector_wire_path]
    ∧ (loc_W ∉ [-1; 0; 1] → xfact = loc_W).
Proof.
  cbn zeta. intros Hget Hout.
  destruct (connection_pad_objects_pair (self_p self) pc
              (_get_radii (self_p self)).2) as (pad & wire & Hobjs).
  eexists pad, wire, _. split; [done|].
  split; [by apply make_connection_pad_run|].
  cbn [self_logger self_qgeometry].
  rewrite (flags_out_of_range pc Hout), drop_app_length.
  do 2 (split; [done|]).
  intros HW. rewrite bool_decide_eq_false_2; [done|].
  intros H0. apply HW. rewrite H0, !elem_of_cons. tauto.
Qed.

Lemma out_of_range_flags_warn_and_continue_witness :
  let pc := set_loc 2 1 _default_connection_pads in
  let self := one_pad_component pc in
  dict_get (opts.connection_pads (self_p self)) "a" = Some pc
  ∧ (conn.loc_W pc ∉ [-1; 0; 1])
  ∧ ∃ self',
      make_connection_pad "a" self = Ok tt self'
      ∧ self_logger self' = [mk_log "info" loc_warning [2; 1]].
Proof.
  cbn zeta.
  assert (Hget : dict_get
                   (opts.connection_pads
                      (self_p (one_pad_component
                                 (set_loc 2 1 _default_connection_pads)))) "a"
                 = Some (set_loc 2 1 _default_connection_pads))
    by reflexivity.
  assert (HW : conn.loc_W (set_loc 2 1 _default_connection_pads)
               ∉ [-1; 0; 1]).
  { apply (bool_decide_unpack _). vm_compute. exact I. }
  do 2 (split; [assumption|]).
  destruct (out_of_range_flags_warn_and_continue "a" _ _ Hget (or_introl HW))
    as (pad & wire & self' & _ & Hrun & Hlog & _).
  exists self'. split; [exact Hrun|exact Hlog].
Defined.

(** C8. For every connector, [make_connection_pad] registers the connector
    pad as [poly] geometry, the wire as [path] geometry of width [cpw_width],
    and the very same wire path once more as a subtracted [path] of width
    [cpw_width + 2 * cpw_gap]. *)
Theorem connection_pad_registration
    (name : string) (pc : conn.t) (self : component) :
  let p := self_p self in
  dict_get (opts.connection_pads p) name = Some pc →
  ∃ connector_pad connector_wire_path self',
    connection_pad_objects p pc (_get_radii p).2
    = [connector_pad; connector_wire_path]
    ∧ make_connection_pad name self = Ok tt self'
    ∧ self_qgeometry self'
      = self_qgeometry self ++
          [mk_row "poly" (name +:+ "_connector_pad")
             (connector_placed p pc connector_pad) false None;
           mk_row "path" (name +:+ "_wire")
             (connector_placed p pc connector_wire_path) false
             (Some (conn.cpw_width pc));
           mk_row "path" (name +:+ "_wire_sub")
             (connector_placed p pc connector_wire_path) true
             (Some (conn.cpw_width pc + 2 * conn.cpw_gap pc))].
Proof.
  cbn zeta. intros Hget.
  destruct (connection_pad_objects_pair (self_p self) pc
              (_get_radii (self_p self)).2) as (pad & wire & Hobjs).
  eexists pad, wire, _. split; [done|].
  split; [by apply make_connection_pad_run|done].
Qed.

Lemma connection_pad_registration_witness :
  let self := one_pad_component _default_connection_pads in
  dict_get (opts.connection_pads (self_p self)) "a"
  = Some _default_connection_pads
  ∧ ∃ self', make_connection_pad "a" self = Ok tt self'
             ∧ length (self_qgeometry self') = 3%nat.
Proof.
  cbn zeta.
  assert (Hget : dict_get
                   (opts.connection_pads
                      (self_p (one_pad_component _default_connection_pads)))
                   "a"
                 = Some _default_connection_pads) by reflexivity.
  split; [assumption|].
  destruct (connection_pad_registration "a" _ _ Hget)
    as (pad & wire & self' & _ & Hrun & Hrows).
  exists self'. split; [exact Hrun|]. by rewrite Hrows.
Defined.

(** C10. For a connector with [loc_W = 0] the wire built before the
    mirroring, translation and rotation is the two-point vertical segment
    from [(0, pad_height)] of the connector to
    [(0, pocket_width/2 - pad_height - pad_gap/2 - connector pad_gap
         + cpw_extend)],
    where [pocket_width], [pad_height] and [pad_gap] are the component's. *)
Theorem center_wire_path (p : opts.t) (pc : conn.t) (cn_r : Qc) :
  conn.loc_W pc = 0 →
  connection_pad_objects p pc cn_r !! 1%nat
  = Some (LineString
            [(0, conn.pad_height pc);
             (0, opts.pocket_width p / 2 - opts.pad_height p
                 - opts.pad_gap p / 2 - conn.pad_gap pc
                 + conn.cpw_extend pc)]).
Proof.
  intros HW. unfold connection_pad_objects, float. rewrite HW.
  by rewrite bool_decide_eq_false_2 by (by intros H; apply H).
Qed.

Lemma center_wire_path_witness :
  let pc := set_loc 0 1 _default_connection_pads in
  conn.loc_W pc = 0
  ∧ connection_pad_objects default_options pc 0 !! 1%nat
    = Some (LineString
              [(0, um 30);
               (0, um 650 / 2 - um 90 - um 30 / 2 - um 15 + um 100)]).
Proof.
  cbn zeta. split; [reflexivity|].
  exact (center_wire_path default_options
           (set_loc 0 1 _default_connection_pads) 0 eq_refl).
Defined.

(** ** Anchoring of the connector pad *)

Lemma connector_pad_center (p : opts.t) (pc : conn.t) (cn_r : Qc) :
  conn.loc_W pc = 0 →
  connection_pad_objects p pc cn_r !! 0%nat
  = Some (_rounded_rectangle (conn.pad_width pc) (conn.pad_height pc)
            0 (conn.pad_height pc / 2) cn_r).
Proof.
  intros HW. unfold connection_pad_objects, float. rewrite HW.
  by rewrite bool_decide_eq_false_2 by (by intros H; apply H).
Qed.

Lemma connector_pad_side (p : opts.t) (pc : conn.t) (cn_r : Qc) :
  conn.loc_W pc ≠ 0 →
  connection_pad_objects p pc cn_r !! 0%nat
  = Some (_rounded_rectangle (conn.pad_width pc) (conn.pad_height pc)
            ((- conn.pad_width pc) / 2) (conn.pad_height pc / 2) cn_r).
Proof.
  intros HW. unfold connection_pad_objects, float.
  by rewrite bool_decide_eq_true_2.
Qed.

Lemma connector_pad_center_extent (p : opts.t) (pc : conn.t) (cn_r : Qc) :
  conn.loc_W pc = 0 → cn_r ≤ 0 → 0 < conn.pad_width pc →
  (connection_pad_objects p pc cn_r !! 0%nat) ≫= x_extent
  = Some (0, conn.pad_width pc)
  ∧ symmetric_about_y (0, conn.pad_width pc) = false.
Proof.
  intros HW Hr Hpos. rewrite connector_pad_center by done.
  rewrite rounded_rectangle_sharp by done. cbn. rewrite Qcplus_0_l.
  split; [done|]. apply bool_decide_eq_false_2. cbn. intros Heq.
  apply (Qclt_not_eq _ _ Hpos).
  rewrite <-(Qcopp_involutive (conn.pad_width pc)). by rewrite <-Heq.
Qed.

(** C2. What the code builds at the default connector options: with
    [loc_W = 0] the pad rectangle spans x from 0 to [pad_width], which is not
    symmetric about the y-axis; with [loc_W = +1] it spans x from
    [-pad_width/2] to [+pad_width/2], which is. *)
Theorem connector_pad_anchor_default :
  let center := set_loc 0 1 _default_connection_pads in
  let side := set_loc 1 1 _default_connection_pads in
  (connection_pad_objects default_options center 0 !! 0%nat) ≫= x_extent
  = Some (0, um 125)
  ∧ symmetric_about_y (0, um 125) = false
  ∧ (connection_pad_objects default_options side 0 !! 0%nat) ≫= x_extent
    = Some (- (um 125 / 2), um 125 / 2)
  ∧ symmetric_about_y (- (um 125 / 2), um 125 / 2) = true.
Proof.
  cbn zeta. split; [|split; [done|split; [|done]]].
  - rewrite connector_pad_center by done.
    rewrite rounded_rectangle_sharp by done. cbn.
    by rewrite Qcplus_0_l.
  - rewrite connector_pad_side by done.
    rewrite rounded_rectangle_sharp by done. cbn.
    do 2 f_equal; by apply Qc_is_canon.
Qed.

(** ** Dict lookups of iterated names *)

Lemma dict_get_key {V : Type} (d : list (string * V)) (name : string) :
  name ∈ d.*1 → is_Some (dict_get d name).
Proof.
  induction d as [|[k v] d IH]; cbn.
  - by intros ?%elem_of_nil.
  - intros [->|Hin]%elem_of_cons.
    + by rewrite bool_decide_eq_true_2.
    + case_bool_decide; [done|by apply IH].
Qed.

(** ** The default component, run *)

Example make_default_one_pad :
  ∃ self', make (one_pad_component _default_connection_pads) = Ok tt self'
           ∧ row_name <$> self_qgeometry self'
             = ["pad_top"; "pad_bot"; "rect_pk"; "rect_jj";
                "a_connector_pad"; "a_wire"; "a_wire_sub"]
           ∧ row_subtract <$> self_qgeometry self'
             = [false; false; true; false; false; false; true]
           ∧ pin_name <$> self_pins self' = ["a"]
           ∧ self_logger self' = [].
Proof.
  eexists. split; [by vm_compute|]. repeat split; by vm_compute.
Qed.

Example default_pocket_sharp :
  corners (_rounded_rectangle (um 650) (um 650) ((- um 650) / 2) (um 650 / 2)
             (um 0))
  = Some [((- um 650) / 2, um 650 / 2 - um 650);
          ((- um 650) / 2 + um 650, um 650 / 2 - um 650);
          ((- um 650) / 2 + um 650, um 650 / 2);
          ((- um 650) / 2, um 650 / 2)].
Proof. reflexivity. Qed.

(** * Further properties of the methods *)

(** ** What each method leaves in the component *)

Lemma make_pocket_spec (self : component) :
  make_pocket self
  = Ok tt (mk_component (self_p self)
             (self_qgeometry self ++ pocket_rows (self_p self))
             (self_pins self) (self_logger self)).
Proof.
  destruct (make_pocket_run self) as (jj & top & bot & pk & Hpolys & Hrun).
  cbn zeta in Hpolys. unfold pocket_rows. by rewrite Hpolys.
Qed.

Lemma make_connection_pad_spec (name : string) (pc : conn.t)
    (self : component) :
  dict_get (opts.connection_pads (self_p self)) name = Some pc →
  make_connection_pad name self
  = Ok tt (mk_component (self_p self)
             (self_qgeometry self ++ connector_rows (self_p self) name pc)
             (self_pins self ++ connector_pins (self_p self) name pc)
             (self_logger self ++ warning_rows pc)).
Proof.
  intros Hget.
  destruct (connection_pad_objects_pair (self_p self) pc
              (_get_radii (self_p self)).2) as (pad & wire & Hobjs).
  rewrite (make_connection_pad_run name pc self pad wire Hget Hobjs).
  unfold connector_rows, connector_pins, warning_rows. by rewrite Hobjs.
Qed.

Lemma for_each_spec (names : list string) (self : component) :
  names ⊆ (opts.connection_pads (self_p self)).*1 →
  for_each names make_connection_pad self
  = Ok tt (mk_component (self_p self)
             (self_qgeometry self
                ++ over_connectors (self_p self) (connector_rows (self_p self))
                     names)
             (self_pins self
                ++ over_connectors (self_p self) (connector_pins (self_p self))
                     names)
             (self_logger self
                ++ over_connectors (self_p self) (λ _, warning_rows) names)).
Proof.
  revert self. induction names as [|name names IH]; intros self Hsub.
  - destruct self. cbn. unfold over_connectors. cbn. by rewrite !app_nil_r.
  - assert (Hin : name ∈ (opts.connection_pads (self_p self)).*1)
      by (apply Hsub, elem_of_cons; by left).
    destruct (dict_get_key _ _ Hin) as [pc Hget].
    cbn [for_each]. unfold mbind, M_bind at 1.
    rewrite (make_connection_pad_spec name pc self Hget).
    rewrite IH; cbn [self_p self_qgeometry self_pins self_logger].
    + unfold over_connectors. rewrite !bind_cons, Hget.
      by rewrite <-!app_assoc.
    + intros x Hx. apply Hsub, elem_of_cons. by right.
Qed.

Lemma make_spec (self : component) :
  let p := self_p self in
  let names := (opts.connection_pads p).*1 in
  make self
  = Ok tt (mk_component p
             (self_qgeometry self ++ pocket_rows p
                ++ over_connectors p (connector_rows p) names)
             (self_pins self ++ over_connectors p (connector_pins p) names)
             (self_logger self ++ over_connectors p (λ _, warning_rows) names)).
Proof.
  cbn zeta. unfold make, mbind, M_bind at 1. rewrite make_pocket_spec.
  unfold make_connection_pads, get_p, mbind, M_bind.
  cbn [self_p]. rewrite for_each_spec by done.
  cbn [self_p self_qgeometry self_pins self_logger].
  by rewrite <-!app_assoc.
Qed.

(** ** More on the rounded-rectangle builder *)

Lemma half_py_min_le (radius width height : Qc) :
  radius ≤ width / 2 → radius ≤ height / 2 →
  radius ≤ half * py_min width height.
Proof.
  intros Hw Hh. rewrite half_mult. unfold py_min. by case_bool_decide.
Qed.

Lemma half_py_min_nonpos (width height : Qc) :
  width ≤ 0 ∨ height ≤ 0 → half * py_min width height ≤ 0.
Proof.
  intros Hwh. rewrite Qcmult_comm, <-(Qcmult_0_l half).
  apply Qcmult_le_compat_r; [|apply Qclt_le_weak, half_pos].
  destruct Hwh as [Hw|Hh].
  - eapply Qcle_trans; [apply py_min_le_l|done].
  - eapply Qcle_trans; [apply py_min_le_r|done].
Qed.

(** X1. A radius that is zero or negative is treated as no rounding at all:
    the builder returns the sharp box it returns for radius 0, and no buffer
    call is made. *)
Theorem nonpositive_radius_is_sharp (width height xoff yoff radius : Qc) :
  radius ≤ 0 →
  _rounded_rectangle width height xoff yoff radius
  = _rounded_rectangle width height xoff yoff 0
  ∧ uses_buffer (_rounded_rectangle width height xoff yoff radius) = false.
Proof.
  intros Hr. rewrite !rounded_rectangle_sharp; [done|apply Qcle_refl|done].
Qed.

Lemma nonpositive_radius_is_sharp_witness :
  - um 5 ≤ 0
  ∧ _rounded_rectangle (um 455) (um 90) 0 0 (- um 5)
    = _rounded_rectangle (um 455) (um 90) 0 0 0.
Proof.
  assert (H : - um 5 ≤ 0) by done.
  exact (conj H (proj1 (nonpositive_radius_is_sharp
                          (um 455) (um 90) 0 0 (- um 5) H))).
Defined.

(** X2. A positive radius that does not exceed half of either side is used
    unchanged: the box is eroded and dilated by exactly that radius. *)
Theorem in_range_radius_unclamped (width height xoff yoff radius : Qc) :
  0 < radius → radius ≤ width / 2 → radius ≤ height / 2 →
  _rounded_rectangle width height xoff yoff radius
  = buffer (buffer (box xoff (yoff - height) (xoff + width) yoff)
                   (- radius) JOIN_STYLE.mitre)
           radius JOIN_STYLE.round.
Proof.
  intros Hr Hw Hh. rewrite rounded_rectangle_rounded by done. cbn zeta.
  by rewrite py_min_l by by apply half_py_min_le.
Qed.

Lemma in_range_radius_unclamped_witness :
  0 < um 20 ∧ um 20 ≤ um 455 / 2 ∧ um 20 ≤ um 90 / 2
  ∧ _rounded_rectangle (um 455) (um 90) 0 0 (um 20)
    = buffer (buffer (box 0 (0 - um 90) (0 + um 455) 0)
                     (- um 20) JOIN_STYLE.mitre)
             (um 20) JOIN_STYLE.round.
Proof.
  assert (H1 : 0 < um 20) by done.
  assert (H2 : um 20 ≤ um 455 / 2) by done.
  assert (H3 : um 20 ≤ um 90 / 2) by done.
  exact (conj H1 (conj H2 (conj H3
           (in_range_radius_unclamped (um 455) (um 90) 0 0 (um 20)
              H1 H2 H3)))).
Defined.

(** X3. Clamping is idempotent: for positive width, height and radius,
    calling the builder with the already clamped radius gives the same shape
    as calling it with the radius asked for. *)
Theorem clamped_radius_idempotent (width height xoff yoff radius : Qc) :
  0 < width → 0 < height → 0 < radius →
  _rounded_rectangle width height xoff yoff
    (py_min radius (half * py_min width height))
  = _rounded_rectangle width height xoff yoff radius.
Proof.
  intros Hw Hh Hr.
  assert (Hm : 0 < half * py_min width height)
    by (rewrite half_mult; by apply half_min_pos).
  rewrite !rounded_rectangle_rounded; [|done|by apply py_min_pos].
  cbn zeta.
  by rewrite (py_min_l (py_min radius _)) by apply py_min_le_r.
Qed.

Lemma clamped_radius_idempotent_witness :
  0 < um 455 ∧ 0 < um 90 ∧ 0 < um 60
  ∧ _rounded_rectangle (um 455) (um 90) 0 0
      (py_min (um 60) (half * py_min (um 455) (um 90)))
    = _rounded_rectangle (um 455) (um 90) 0 0 (um 60).
Proof.
  assert (H1 : 0 < um 455) by done.
  assert (H2 : 0 < um 90) by done.
  assert (H3 : 0 < um 60) by done.
  exact (conj H1 (conj H2 (conj H3
           (clamped_radius_idempotent (um 455) (um 90) 0 0 (um 60)
              H1 H2 H3)))).
Defined.

(** X4. The lower end of the clamp is not enforced for a degenerate
    rectangle: with a positive radius and a width or height that is zero or
    negative, the builder still calls buffer twice, with the radius
    [0.5 * min(w, h)], which is zero or negative. *)
Theorem degenerate_size_radius (width height xoff yoff radius : Qc) :
  0 < radius → width ≤ 0 ∨ height ≤ 0 →
  let r := half * py_min width height in
  _rounded_rectangle width height xoff yoff radius
  = buffer (buffer (box xoff (yoff - height) (xoff + width) yoff)
                   (- r) JOIN_STYLE.mitre)
           r JOIN_STYLE.round
  ∧ r ≤ 0.
Proof.
  intros Hr Hwh. cbn zeta.
  pose proof (half_py_min_nonpos width height Hwh) as Hm.
  split; [|done].
  rewrite rounded_rectangle_rounded by done. cbn zeta.
  by rewrite py_min_r by by eapply Qcle_lt_trans.
Qed.

Lemma degenerate_size_radius_witness :
  0 < um 20 ∧ (- um 10 ≤ 0 ∨ um 90 ≤ 0)
  ∧ _rounded_rectangle (- um 10) (um 90) 0 0 (um 20)
    = buffer (buffer (box 0 (0 - um 90) (0 + - um 10) 0)
                     (- (half * py_min (- um 10) (um 90))) JOIN_STYLE.mitre)
             (half * py_min (- um 10) (um 90)) JOIN_STYLE.round.
Proof.
  assert (H1 : 0 < um 20) by done.
  assert (H2 : - um 10 ≤ 0 ∨ um 90 ≤ 0) by (by left).
  exact (conj H1 (conj H2
           (proj1 (degenerate_size_radius (- um 10) (um 90) 0 0 (um 20)
                     H1 H2)))).
Defined.

(** ** Dict lookups *)

Lemma dict_get_NoDup {V : Type} (d : list (string * V)) (name : string) (v : V) :
  NoDup d.*1 → (name, v) ∈ d → dict_get d name = Some v.
Proof.
  induction d as [|[k w] d IH]; cbn.
  - by intros _ ?%elem_of_nil.
  - intros [Hk Hnd]%NoDup_cons [[= -> ->]|Hin]%elem_of_cons.
    + by rewrite bool_decide_eq_true_2.
    + rewrite bool_decide_eq_false_2; [by apply IH|].
      intros ->. apply Hk. apply list_elem_of_fmap. by exists (name, v).
Qed.

(** ** Rows of all connectors *)

Lemma Forall_over_connectors {A : Type} (P : A → Prop) (p : opts.t)
    (f : string → conn.t → list A) (names : list string) :
  (∀ name pc, dict_get (opts.connection_pads p) name = Some pc →
              Forall P (f name pc)) →
  Forall P (over_connectors p f names).
Proof.
  intros Hf. unfold over_connectors. apply Forall_bind, Forall_forall.
  intros name _. unfold compose. cbn beta.
  destruct (dict_get (opts.connection_pads p) name) as [pc|] eqn:Hget;
    [by apply Hf|by apply Forall_nil].
Qed.

Lemma fmap_over_connectors {A B : Type} (g : A → B) (p : opts.t)
    (f : string → conn.t → list A) (h : string → list B)
    (names : list string) :
  names ⊆ (opts.connection_pads p).*1 →
  (∀ name pc, g <$> f name pc = h name) →
  g <$> over_connectors p f names = names ≫= h.
Proof.
  intros Hsub Hf. unfold over_connectors.
  induction names as [|name names IH]; [done|].
  rewrite !bind_cons, fmap_app.
  assert (Hin : name ∈ (opts.connection_pads p).*1)
    by (apply Hsub, elem_of_cons; by left).
  destruct (dict_get_key _ _ Hin) as [pc ->].
  rewrite Hf, IH; [done|].
  intros x Hx. apply Hsub, elem_of_cons. by right.
Qed.

Lemma over_connectors_found {A : Type} (p : opts.t)
    (f : string → conn.t → list A) (d : list (string * conn.t)) :
  (∀ kv, kv ∈ d → dict_get (opts.connection_pads p) kv.1 = Some kv.2) →
  over_connectors p f d.*1 = d ≫= λ kv, f kv.1 kv.2.
Proof.
  unfold over_connectors.
  induction d as [|[k v] d IH]; intros Hall; [done|].
  rewrite fmap_cons, !bind_cons. cbn [fst snd].
  pose proof (Hall (k, v)) as Hhead. cbn [fst snd] in Hhead.
  rewrite Hhead by (apply elem_of_cons; by left).
  rewrite IH; [done|].
  intros kv Hkv. apply Hall, elem_of_cons. by right.
Qed.

Lemma over_connectors_NoDup {A : Type} (p : opts.t)
    (f : string → conn.t → list A) :
  NoDup (opts.connection_pads p).*1 →
  over_connectors p f (opts.connection_pads p).*1
  = opts.connection_pads p ≫= λ kv, f kv.1 kv.2.
Proof.
  intros Hnd. apply over_connectors_found.
  intros [k v] Hin. by apply dict_get_NoDup.
Qed.

(** ** Explicit rows *)

Lemma pocket_rows_eq (p : opts.t) :
  ∃ rect_jj pad_top pad_bot rect_pk,
    pocket_polys p = [rect_jj; pad_top; pad_bot; rect_pk]
    ∧ pocket_rows p
      = [mk_row "poly" "pad_top" (pocket_placed p pad_top) false None;
         mk_row "poly" "pad_bot" (pocket_placed p pad_bot) false None;
         mk_row "poly" "rect_pk" (pocket_placed p rect_pk) true None;
         mk_row "junction" "rect_jj" (pocket_placed p rect_jj) false
           (Some (opts.inductor_width p))].
Proof.
  unfold pocket_rows, pocket_polys.
  destruct (_get_radii p) as [[pad_r pk_r] cn_r].
  by eexists _, _, _, _.
Qed.

Lemma connector_rows_eq (p : opts.t) (name : string) (pc : conn.t) :
  ∃ connector_pad connector_wire_path,
    connection_pad_objects p pc (_get_radii p).2
    = [connector_pad; connector_wire_path]
    ∧ connector_rows p name pc
      = [mk_row "poly" (name +:+ "_connector_pad")
           (connector_placed p pc connector_pad) false None;
         mk_row "path" (name +:+ "_wire")
           (connector_placed p pc connector_wire_path) false
           (Some (conn.cpw_width pc));
         mk_row "path" (name +:+ "_wire_sub")
           (connector_placed p pc connector_wire_path) true
           (Some (conn.cpw_width pc + 2 * conn.cpw_gap pc))]
    ∧ connector_pins p name pc
      = [mk_pin name (connector_placed p pc connector_wire_path)
           (conn.cpw_width pc) true].
Proof.
  destruct (connection_pad_objects_pair p pc (_get_radii p).2)
    as (pad & wire & Hobjs).
  exists pad, wire. unfold connector_rows, connector_pins.
  by rewrite Hobjs.
Qed.

(** ** The whole component *)

(** X5. [make] only appends: whenever it returns, it has left the parsed
    options as they are and has kept the rows, pins and log records that were
    there before, in place, at the front. *)
Theorem make_only_appends (self self' : component) :
  make self = Ok tt self' →
  self_p self' = self_p self
  ∧ self_qgeometry self `prefix_of` self_qgeometry self'
  ∧ self_pins self `prefix_of` self_pins self'
  ∧ self_logger self `prefix_of` self_logger self'.
Proof.
  rewrite make_spec. intros [= <-]. cbn.
  split; [done|]. repeat split; by eexists.
Qed.

Lemma make_only_appends_witness :
  let self := mk_component
                (set_connection_pads [("a", _default_connection_pads)]
                   default_options)
                [mk_row "poly" "earlier" (box 0 0 1 1) false None] [] [] in
  ∃ self',
    make self = Ok tt self'
    ∧ self_qgeometry self `prefix_of` self_qgeometry self'
    ∧ length (self_qgeometry self') = 8%nat.
Proof.
  cbn zeta. eexists. split; [apply make_spec|].
  split; [|reflexivity].
  exact (proj1 (proj2 (make_only_appends _ _ (make_spec _)))).
Defined.

Lemma bind_singleton_id {A : Type} (l : list A) : (l ≫= λ x, [x]) = l.
Proof.
  induction l as [|x l IH]; [done|]. rewrite bind_cons. cbn. by rewrite IH.
Qed.

Lemma length_bind_three {A B : Type} (f g h : A → B) (l : list A) :
  length (l ≫= λ x, [f x; g x; h x]) = (3 * length l)%nat.
Proof.
  induction l as [|x l IH]; [done|].
  rewrite bind_cons, length_app, IH. cbn. lia.
Qed.

(** X7. [make] registers the four pocket rows first, in the order
    [pad_top], [pad_bot], [rect_pk], [rect_jj], then for each connection pad,
    in dict order, its [_connector_pad], [_wire] and [_wire_sub] rows; it
    adds one pin per connection pad, named after it, in the same order. So
    a component with [n] connection pads gains [4 + 3n] rows and [n] pins. *)
Theorem make_row_names (self : component) :
  let names := (opts.connection_pads (self_p self)).*1 in
  ∃ self',
    make self = Ok tt self'
    ∧ row_name <$> drop (length (self_qgeometry self)) (self_qgeometry self')
      = ["pad_top"; "pad_bot"; "rect_pk"; "rect_jj"]
          ++ (names ≫= λ name,
                [name +:+ "_connector_pad"; name +:+ "_wire";
                 name +:+ "_wire_sub"])
    ∧ pin_name <$> drop (length (self_pins self)) (self_pins self') = names
    ∧ length (self_qgeometry self')
      = (length (self_qgeometry self) + 4 + 3 * length names)%nat
    ∧ length (self_pins self')
      = (length (self_pins self) + length names)%nat.
Proof.
  cbn zeta. eexists. split; [apply make_spec|].
  cbn [self_qgeometry self_pins].
  assert (Hrows :
    row_name <$>
      (pocket_rows (self_p self)
         ++ over_connectors (self_p self) (connector_rows (self_p self))
              (opts.connection_pads (self_p self)).*1)
    = ["pad_top"; "pad_bot"; "rect_pk"; "rect_jj"]
        ++ ((opts.connection_pads (self_p self)).*1 ≫= λ name,
              [name +:+ "_connector_pad"; name +:+ "_wire";
               name +:+ "_wire_sub"])).
  { rewrite fmap_app.
    destruct (pocket_rows_eq (self_p self))
      as (jj & top & bot & pk & _ & ->).
    cbn [fmap list_fmap row_name]. f_equal.
    apply fmap_over_connectors; [done|]. intros name pc.
    destruct (connector_rows_eq (self_p self) name pc)
      as (pad & wire & _ & -> & _). done. }
  assert (Hpins :
    pin_name <$>
      over_connectors (self_p self) (connector_pins (self_p self))
        (opts.connection_pads (self_p self)).*1
    = (opts.connection_pads (self_p self)).*1).
  { rewrite <-(bind_singleton_id (opts.connection_pads (self_p self)).*1)
      at 2.
    apply fmap_over_connectors; [done|]. intros name pc.
    destruct (connector_rows_eq (self_p self) name pc)
      as (pad & wire & _ & _ & ->). done. }
  rewrite !drop_app_length. split; [exact Hrows|]. split; [exact Hpins|].
  split.
  - rewrite length_app, <-(length_fmap row_name (_ ++ _)), Hrows.
    rewrite length_app, length_bind_three. cbn. lia.
  - rewrite length_app.
    by rewrite <-(length_fmap pin_name (over_connectors _ _ _)), Hpins.
Qed.

Lemma warning_rows_filter (pads : list (string * conn.t)) :
  (pads ≫= λ kv, warning_rows kv.2)
  = (λ kv, mk_log "info" loc_warning [conn.loc_W kv.2; conn.loc_H kv.2])
      <$> filter (λ kv, flags_in_range kv.2 = false) pads.
Proof.
  induction pads as [|[k pc] pads IH]; [done|].
  rewrite bind_cons, filter_cons, IH. unfold warning_rows. cbn [snd].
  destruct (flags_in_range pc); by case_decide.
Qed.

(** X8. With distinct connector names, [make] logs exactly one record for
    each connection pad whose placement flags are out of range, in dict
    order, carrying that pad's two flags, and logs nothing else; when all
    flags are in range the log is left as it was. *)
Theorem make_warnings (self : component) :
  let pads := opts.connection_pads (self_p self) in
  NoDup pads.*1 →
  ∃ self',
    make self = Ok tt self'
    ∧ self_logger self'
      = self_logger self
          ++ ((λ kv, mk_log "info" loc_warning
                       [conn.loc_W kv.2; conn.loc_H kv.2])
                <$> filter (λ kv, flags_in_range kv.2 = false) pads).
Proof.
  cbn zeta. intros Hnd. eexists. split; [apply make_spec|].
  cbn [self_logger].
  by rewrite over_connectors_NoDup, warning_rows_filter by done.
Qed.

Lemma make_warnings_witness :
  let self := two_pad_component _default_connection_pads
                (set_loc 2 1 _default_connection_pads) in
  NoDup (opts.connection_pads (self_p self)).*1
  ∧ ∃ self',
      make self = Ok tt self'
      ∧ self_logger self' = [mk_log "info" loc_warning [2; 1]].
Proof.
  cbn zeta.
  assert (Hnd : NoDup (opts.connection_pads
                         (self_p (two_pad_component _default_connection_pads
                                    (set_loc 2 1 _default_connection_pads)))).*1).
  { apply (bool_decide_unpack _). vm_compute. exact I. }
  split; [exact Hnd|].
  destruct (make_warnings _ Hnd) as (self' & Hrun & Hlog).
  exists self'. split; [exact Hrun|]. rewrite Hlog. reflexivity.
Defined.

(** ** The shapes behind the rows *)

Lemma pocket_polys_shapes (p : opts.t) :
  pocket_polys p
  = let pad := _rounded_rectangle (opts.pad_width p) (opts.pad_height p)
                 ((- opts.pad_width p) / 2) (opts.pad_height p / 2)
                 (_get_radii p).1.1 in
    [LineString [(0, (- opts.pad_gap p) / 2); (0, opts.pad_gap p / 2)];
     translate pad 0 ((opts.pad_height p + opts.pad_gap p) / 2);
     translate pad 0 ((- (opts.pad_height p + opts.pad_gap p)) / 2);
     _rounded_rectangle (opts.pocket_width p) (opts.pocket_height p)
       ((- opts.pocket_width p) / 2) (opts.pocket_height p / 2)
       (_get_radii p).1.2].
Proof.
  unfold pocket_polys. by destruct (_get_radii p) as [[pad_r pk_r] cn_r].
Qed.

Lemma connection_pad_objects_shapes (p : opts.t) (pc : conn.t) (cn_r : Qc) :
  ∃ xoff cs,
    connection_pad_objects p pc cn_r
    = [_rounded_rectangle (conn.pad_width pc) (conn.pad_height pc)
         xoff (conn.pad_height pc / 2) cn_r;
       LineString cs].
Proof.
  unfold connection_pad_objects. case_bool_decide; by eexists _, _.
Qed.

Lemma rounded_rectangle_uses_buffer (width height xoff yoff radius : Qc) :
  uses_buffer (_rounded_rectangle width height xoff yoff radius)
  = bool_decide (0 < radius).
Proof.
  destruct (Qclt_le_dec 0 radius) as [Hpos|Hle].
  - rewrite rounded_rectangle_rounded by done.
    by rewrite bool_decide_eq_true_2.
  - rewrite rounded_rectangle_sharp by done.
    by rewrite bool_decide_eq_false_2 by by apply Qcle_not_lt.
Qed.

Lemma rounded_rectangle_is_polygon (width height xoff yoff radius : Qc) :
  is_polygon (_rounded_rectangle width height xoff yoff radius) = true.
Proof.
  destruct (Qclt_le_dec 0 radius) as [Hpos|Hle].
  - by rewrite rounded_rectangle_rounded.
  - by rewrite rounded_rectangle_sharp.
Qed.

(** A property of rows that [make] establishes for each row it appends. *)
Lemma make_rows_Forall (P : qgeometry_row → Prop) (self : component) :
  Forall P (pocket_rows (self_p self)) →
  (∀ name pc,
     dict_get (opts.connection_pads (self_p self)) name = Some pc →
     Forall P (connector_rows (self_p self) name pc)) →
  ∃ self',
    make self = Ok tt self'
    ∧ Forall P (drop (length (self_qgeometry self)) (self_qgeometry self')).
Proof.
  intros Hpocket Hconn. eexists. split; [apply make_spec|].
  cbn [self_qgeometry]. rewrite drop_app_length.
  apply Forall_app. split; [done|by apply Forall_over_connectors].
Qed.

(** X9. With no rounding of pads and pocket (their radii zero or negative)
    the island pad and the pocket are boxes centred on the origin, from
    [-w/2] to [+w/2] and from [-h/2] to [+h/2]; the pads are that box moved
    up and down by [(pad_height + pad_gap)/2], and the junction runs from
    [(0, -pad_gap/2)] to [(0, +pad_gap/2)]. *)
Theorem pocket_polys_centred (p : opts.t) :
  (_get_radii p).1.1 ≤ 0 → (_get_radii p).1.2 ≤ 0 →
  let w := opts.pad_width p in
  let h := opts.pad_height p in
  let g := opts.pad_gap p in
  let pad := box (- (w / 2)) (- (h / 2)) (w / 2) (h / 2) in
  pocket_polys p
  = [LineString [(0, - (g / 2)); (0, g / 2)];
     translate pad 0 ((h + g) / 2);
     translate pad 0 (- ((h + g) / 2));
     box (- (opts.pocket_width p / 2)) (- (opts.pocket_height p / 2))
         (opts.pocket_width p / 2) (opts.pocket_height p / 2)].
Proof.
  intros Hpad Hpk. cbn zeta. rewrite pocket_polys_shapes. cbn zeta.
  rewrite !rounded_rectangle_sharp by done.
  assert (Hopp : ∀ x : Qc, (- x) / 2 = - (x / 2))
    by (intros x; unfold Qcdiv; ring).
  assert (Hlow : ∀ x : Qc, x / 2 - x = - (x / 2))
    by (intros x; field; done).
  assert (Hhigh : ∀ x : Qc, - (x / 2) + x = x / 2)
    by (intros x; field; done).
  by rewrite !Hopp, !Hlow, !Hhigh.
Qed.

Lemma pocket_polys_centred_witness :
  (_get_radii default_options).1.1 ≤ 0
  ∧ (_get_radii default_options).1.2 ≤ 0
  ∧ pocket_polys default_options !! 3%nat
    = Some (box (- (um 650 / 2)) (- (um 650 / 2)) (um 650 / 2) (um 650 / 2)).
Proof.
  assert (H1 : (_get_radii default_options).1.1 ≤ 0) by done.
  assert (H2 : (_get_radii default_options).1.2 ≤ 0) by done.
  do 2 (split; [assumption|]).
  rewrite (pocket_polys_centred default_options H1 H2). reflexivity.
Defined.

Lemma pocket_rows_shapes (p : opts.t) :
  pocket_rows p
  = let pad := _rounded_rectangle (opts.pad_width p) (opts.pad_height p)
                 ((- opts.pad_width p) / 2) (opts.pad_height p / 2)
                 (_get_radii p).1.1 in
    [mk_row "poly" "pad_top"
       (pocket_placed p
          (translate pad 0 ((opts.pad_height p + opts.pad_gap p) / 2)))
       false None;
     mk_row "poly" "pad_bot"
       (pocket_placed p
          (translate pad 0 ((- (opts.pad_height p + opts.pad_gap p)) / 2)))
       false None;
     mk_row "poly" "rect_pk"
       (pocket_placed p
          (_rounded_rectangle (opts.pocket_width p) (opts.pocket_height p)
             ((- opts.pocket_width p) / 2) (opts.pocket_height p / 2)
             (_get_radii p).1.2))
       true None;
     mk_row "junction" "rect_jj"
       (pocket_placed p
          (LineString [(0, (- opts.pad_gap p) / 2); (0, opts.pad_gap p / 2)]))
       false (Some (opts.inductor_width p))].
Proof.
  destruct (pocket_rows_eq p) as (jj & top & bot & pk & Hpolys & ->).
  rewrite pocket_polys_shapes in Hpolys. cbn zeta in Hpolys.
  by injection Hpolys as <- <- <- <-.
Qed.

Lemma connector_rows_shapes (p : opts.t) (name : string) (pc : conn.t) :
  ∃ xoff cs,
    connector_rows p name pc
    = [mk_row "poly" (name +:+ "_connector_pad")
         (connector_placed p pc
            (_rounded_rectangle (conn.pad_width pc) (conn.pad_height pc)
               xoff (conn.pad_height pc / 2) (_get_radii p).2))
         false None;
       mk_row "path" (name +:+ "_wire")
         (connector_placed p pc (LineString cs)) false
         (Some (conn.cpw_width pc));
       mk_row "path" (name +:+ "_wire_sub")
         (connector_placed p pc (LineString cs)) true
         (Some (conn.cpw_width pc + 2 * conn.cpw_gap pc))].
Proof.
  destruct (connector_rows_eq p name pc) as (pad & wire & Hobjs & -> & _).
  destruct (connection_pad_objects_shapes p pc (_get_radii p).2)
    as (xoff & cs & Hshapes).
  rewrite Hshapes in Hobjs. injection Hobjs as <- <-.
  by exists xoff, cs.
Qed.

(** X10. When the three effective radii are zero or negative, no shape
    registered by [make] is built with a buffer call: pads, pocket and
    connector pads are plain boxes. *)
Theorem sharp_options_no_buffer (self : component) :
  (_get_radii (self_p self)).1.1 ≤ 0 →
  (_get_radii (self_p self)).1.2 ≤ 0 →
  (_get_radii (self_p self)).2 ≤ 0 →
  ∃ self',
    make self = Ok tt self'
    ∧ Forall (λ row, uses_buffer (row_geometry row) = false)
        (drop (length (self_qgeometry self)) (self_qgeometry self')).
Proof.
  intros Hpad Hpk Hcn. apply make_rows_Forall.
  - rewrite pocket_rows_shapes. cbn zeta.
    repeat apply Forall_cons_2; try apply Forall_nil_2; cbn;
      try done; rewrite rounded_rectangle_uses_buffer;
      by apply bool_decide_eq_false_2, Qcle_not_lt.
  - intros name pc _.
    destruct (connector_rows_shapes (self_p self) name pc)
      as (xoff & cs & ->).
    repeat apply Forall_cons_2; try apply Forall_nil_2; cbn; try done.
    rewrite rounded_rectangle_uses_buffer.
    by apply bool_decide_eq_false_2, Qcle_not_lt.
Qed.

Lemma sharp_options_no_buffer_witness :
  let self := one_pad_component _default_connection_pads in
  (_get_radii (self_p self)).2 ≤ 0
  ∧ ∃ self',
      make self = Ok tt self'
      ∧ Forall (λ row, uses_buffer (row_geometry row) = false)
          (self_qgeometry self').
Proof.
  cbn zeta.
  assert (H1 : (_get_radii
                  (self_p (one_pad_component _default_connection_pads))).1.1
               ≤ 0) by done.
  assert (H2 : (_get_radii
                  (self_p (one_pad_component _default_connection_pads))).1.2
               ≤ 0) by done.
  assert (H3 : (_get_radii
                  (self_p (one_pad_component _default_connection_pads))).2
               ≤ 0) by done.
  split; [exact H3|].
  destruct (sharp_options_no_buffer _ H1 H2 H3) as (self' & Hrun & Hall).
  exists self'. split; [exact Hrun|exact Hall].
Defined.

(** X11. When the three effective radii are positive, the shapes registered
    by [make] that are built with a buffer call are exactly the [poly] rows:
    every pad, pocket and connector pad is rounded, and no wire or junction
    is. *)
Theorem rounded_options_buffer_polys (self : component) :
  0 < (_get_radii (self_p self)).1.1 →
  0 < (_get_radii (self_p self)).1.2 →
  0 < (_get_radii (self_p self)).2 →
  ∃ self',
    make self = Ok tt self'
    ∧ Forall (λ row, uses_buffer (row_geometry row)
                     = bool_decide (row_kind row = "poly"))
        (drop (length (self_qgeometry self)) (self_qgeometry self')).
Proof.
  intros Hpad Hpk Hcn. apply make_rows_Forall.
  - rewrite pocket_rows_shapes. cbn zeta.
    repeat apply Forall_cons_2; try apply Forall_nil_2; cbn;
      try done; rewrite rounded_rectangle_uses_buffer;
      by rewrite bool_decide_eq_true_2.
  - intros name pc _.
    destruct (connector_rows_shapes (self_p self) name pc)
      as (xoff & cs & ->).
    repeat apply Forall_cons_2; try apply Forall_nil_2; cbn; try done.
    rewrite rounded_rectangle_uses_buffer.
    by rewrite bool_decide_eq_true_2.
Qed.

Lemma rounded_options_buffer_polys_witness :
  let self := new_component
                (set_radii (um 20) None None None
                   (set_connection_pads [("a", _default_connection_pads)]
                      default_options)) in
  0 < (_get_radii (self_p self)).2
  ∧ ∃ self',
      make self = Ok tt self'
      ∧ uses_buffer <$> (row_geometry <$> self_qgeometry self')
        = [true; true; true; false; true; false; false].
Proof.
  cbn zeta.
  set (self := new_component
                 (set_radii (um 20) None None None
                    (set_connection_pads [("a", _default_connection_pads)]
                       default_options))).
  assert (H1 : 0 < (_get_radii (self_p self)).1.1) by done.
  assert (H2 : 0 < (_get_radii (self_p self)).1.2) by done.
  assert (H3 : 0 < (_get_radii (self_p self)).2) by done.
  split; [exact H3|].
  destruct (rounded_options_buffer_polys self H1 H2 H3)
    as (self' & Hrun & _).
  exists self'. split; [exact Hrun|].
  assert (Hrun' : make self = Ok tt self') by exact Hrun.
  vm_compute in Hrun'. injection Hrun' as <-. reflexivity.
Defined.

(** X12. Every row registered by [make] is consistent with its table: a
    [poly] row holds a polygon (a box or a buffered shape, transformed) and
    no width; any other row is a [path] or [junction] row, holds a line
    string built without buffer, and carries a width. *)
Theorem make_rows_well_kinded (self : component) :
  ∃ self',
    make self = Ok tt self'
    ∧ Forall (λ row,
                if bool_decide (row_kind row = "poly")
                then is_polygon (row_geometry row) = true
                     ∧ row_width row = None
                else row_kind row ∈ ["path"; "junction"]
                     ∧ is_line (row_geometry row) = true
                     ∧ uses_buffer (row_geometry row) = false
                     ∧ is_Some (row_width row))
        (drop (length (self_qgeometry self)) (self_qgeometry self')).
Proof.
  apply make_rows_Forall.
  - rewrite pocket_rows_shapes. cbn zeta.
    repeat apply Forall_cons_2; try apply Forall_nil_2; cbn.
    + split; [|done].
      apply (rounded_rectangle_is_polygon (opts.pad_width (self_p self))).
    + split; [|done].
      apply (rounded_rectangle_is_polygon (opts.pad_width (self_p self))).
    + split; [|done].
      apply (rounded_rectangle_is_polygon (opts.pocket_width (self_p self))).
    + repeat split; [|by eexists].
      apply elem_of_cons. right. apply elem_of_cons. by left.
  - intros name pc _.
    destruct (connector_rows_shapes (self_p self) name pc)
      as (xoff & cs & ->).
    repeat apply Forall_cons_2; try apply Forall_nil_2; cbn.
    + split; [|done].
      apply (rounded_rectangle_is_polygon (conn.pad_width pc)).
    + repeat split; [|by eexists]. apply elem_of_cons. by left.
    + repeat split; [|by eexists]. apply elem_of_cons. by left.
Qed.

(** ** Which option reaches which shape *)

(** X13. The connector radius override does not reach the pocket: two
    components that differ only in [connector_corner_radius] get the same
    rows from [make_pocket]. *)
Theorem make_pocket_ignores_connector_radius
    (p : opts.t) (corner : Qc) (pad pocket connector connector' : option Qc)
    (rows : list qgeometry_row) (pins : list pin_row) (log : list log_row) :
  ∃ rows',
    make_pocket
      (mk_component (set_radii corner pad pocket connector p) rows pins log)
    = Ok tt (mk_component (set_radii corner pad pocket connector p)
               rows' pins log)
    ∧ make_pocket
        (mk_component (set_radii corner pad pocket connector' p) rows pins log)
      = Ok tt (mk_component (set_radii corner pad pocket connector' p)
                 rows' pins log).
Proof.
  eexists. rewrite !make_pocket_spec. cbn [self_p self_qgeometry self_pins
    self_logger]. split; [reflexivity|].
  by rewrite !pocket_rows_shapes.
Qed.

(** X14. The pad and pocket radius overrides do not reach a connection pad:
    two components that differ only in [pad_corner_radius] and
    [pocket_corner_radius] get the same rows, pin and log record from
    [make_connection_pad]. *)
Theorem make_connection_pad_ignores_pocket_radii
    (p : opts.t) (corner : Qc) (pad pocket connector pad' pocket' : option Qc)
    (rows : list qgeometry_row) (pins : list pin_row) (log : list log_row)
    (name : string) (pc : conn.t) :
  dict_get (opts.connection_pads p) name = Some pc →
  ∃ rows' pins' log',
    make_connection_pad name
      (mk_component (set_radii corner pad pocket connector p) rows pins log)
    = Ok tt (mk_component (set_radii corner pad pocket connector p)
               rows' pins' log')
    ∧ make_connection_pad name
        (mk_component (set_radii corner pad' pocket' connector p)
           rows pins log)
      = Ok tt (mk_component (set_radii corner pad' pocket' connector p)
                 rows' pins' log').
Proof.
  intros Hget. eexists _, _, _.
  rewrite !(make_connection_pad_spec name pc) by done.
  cbn [self_p self_qgeometry self_pins self_logger].
  split; [reflexivity|]. f_equal.
Qed.

Lemma make_connection_pad_ignores_pocket_radii_witness :
  let p := set_connection_pads [("a", _default_connection_pads)]
             default_options in
  dict_get (opts.connection_pads p) "a" = Some _default_connection_pads
  ∧ ∃ rows' pins' log',
      make_connection_pad "a"
        (mk_component (set_radii (um 5) None None (Some (um 10)) p) [] [] [])
      = Ok tt (mk_component (set_radii (um 5) None None (Some (um 10)) p)
                 rows' pins' log')
      ∧ make_connection_pad "a"
          (mk_component
             (set_radii (um 5) (Some (um 20)) (Some (um 30)) (Some (um 10)) p)
             [] [] [])
        = Ok tt (mk_component
                   (set_radii (um 5) (Some (um 20)) (Some (um 30))
                      (Some (um 10)) p)
                   rows' pins' log').
Proof.
  cbn zeta.
  assert (Hget : dict_get
                   (opts.connection_pads
                      (set_connection_pads [("a", _default_connection_pads)]
                         default_options)) "a"
                 = Some _default_connection_pads) by reflexivity.
  split; [exact Hget|].
  exact (make_connection_pad_ignores_pocket_radii _ (um 5) None None
           (Some (um 10)) (Some (um 20)) (Some (um 30)) [] [] [] "a"
           _default_connection_pads Hget).
Defined.

(** ** Placement of connectors *)

(** X15. The shapes of a side connector before placement do not depend on
    which side it is on: for nonzero [loc_W] the connector pad and wire path
    are the same whatever the values of [loc_W] and [loc_H]; mirroring is
    left entirely to the scale that follows. *)
Theorem side_connectors_share_shapes
    (p : opts.t) (pc : conn.t) (cn_r W H W' H' : Qc) :
  W ≠ 0 → W' ≠ 0 →
  connection_pad_objects p (set_loc W H pc) cn_r
  = connection_pad_objects p (set_loc W' H' pc) cn_r.
Proof.
  intros HW HW'. unfold connection_pad_objects, float. cbn.
  by rewrite !bool_decide_eq_true_2.
Qed.

Lemma side_connectors_share_shapes_witness :
  (1 : Qc) ≠ 0 ∧ (- 1 : Qc) ≠ 0
  ∧ connection_pad_objects default_options
      (set_loc 1 1 _default_connection_pads) 0
    = connection_pad_objects default_options
        (set_loc (- 1) (- 1) _default_connection_pads) 0.
Proof.
  assert (H1 : (1 : Qc) ≠ 0) by done.
  assert (H2 : (- 1 : Qc) ≠ 0) by done.
  exact (conj H1 (conj H2
           (side_connectors_share_shapes default_options
              _default_connection_pads 0 1 1 (- 1) (- 1) H1 H2))).
Defined.

(** X16. Negating both placement flags of a side connector negates both
    scale factors and both translation offsets of its placement, and leaves
    the rotation as it is. *)
Theorem opposite_flags_mirror
    (p : opts.t) (pc : conn.t) (W H : Qc) (g : geom) :
  W ≠ 0 →
  ∃ xoff yoff,
    connector_placed p (set_loc W H pc) g
    = rotate_position (translate (scale g W H (0, 0)) xoff yoff)
        (opts.orientation p) (opts.pos_x p, opts.pos_y p)
    ∧ connector_placed p (set_loc (- W) (- H) pc) g
      = rotate_position
          (translate (scale g (- W) (- H) (0, 0)) (- xoff) (- yoff))
          (opts.orientation p) (opts.pos_x p, opts.pos_y p).
Proof.
  intros HW.
  assert (HW' : - W ≠ 0).
  { intros Hopp. apply HW. by rewrite <-(Qcopp_involutive W), Hopp. }
  eexists _, _. unfold connector_placed. cbn.
  rewrite (bool_decide_eq_false_2 (W = 0)) by done.
  rewrite (bool_decide_eq_false_2 (- W = 0)) by done.
  split; [reflexivity|]. f_equal. f_equal; unfold Qcdiv; ring.
Qed.

Lemma opposite_flags_mirror_witness :
  (1 : Qc) ≠ 0
  ∧ connector_placed default_options
      (set_loc (- 1) (- 1) _default_connection_pads) (box 0 0 1 1)
    = rotate_position
        (translate (scale (box 0 0 1 1) (- 1) (- 1) (0, 0))
           (- (1 * um 455 / 2)) (- (1 * (um 90 + um 30 / 2 + um 15))))
        0 (0, 0).
Proof.
  assert (H1 : (1 : Qc) ≠ 0) by done.
  split; [exact H1|].
  destruct (opposite_flags_mirror default_options _default_connection_pads
              1 1 (box 0 0 1 1) H1) as (xoff & yoff & Hpos & Hneg).
  rewrite Hneg. unfold connector_placed in Hpos. cbn in Hpos.
  by injection Hpos as <- <-.
Defined.

(** X17. A centre connector ([loc_W = 0]) is neither mirrored nor shifted
    along x: its three shapes are registered scaled by [(1, loc_H)] and
    translated by [(0, loc_H * (pad_height + pad_gap/2 + connector
    pad_gap))], then rotated and positioned with the component. *)
Theorem centre_connector_placement
    (name : string) (pc : conn.t) (self : component) :
  let p := self_p self in
  let loc_H := conn.loc_H pc in
  let place g :=
    rotate_position
      (translate (scale g 1 loc_H (0, 0)) 0
         (loc_H * (opts.pad_height p + opts.pad_gap p / 2 + conn.pad_gap pc)))
      (opts.orientation p) (opts.pos_x p, opts.pos_y p) in
  dict_get (opts.connection_pads p) name = Some pc →
  conn.loc_W pc = 0 →
  ∃ connector_pad connector_wire_path self',
    connection_pad_objects p pc (_get_radii p).2
    = [connector_pad; connector_wire_path]
    ∧ make_connection_pad name self = Ok tt self'
    ∧ row_geometry
        <$> drop (length (self_qgeometry self)) (self_qgeometry self')
      = [place connector_pad; place connector_wire_path;
         place connector_wire_path].
Proof.
  cbn zeta. intros Hget HW.
  destruct (connector_rows_eq (self_p self) name pc)
    as (pad & wire & Hobjs & Hrows & _).
  eexists pad, wire, _. split; [done|].
  split; [by apply make_connection_pad_spec|].
  cbn [self_qgeometry]. rewrite drop_app_length, Hrows.
  unfold connector_placed. cbn. rewrite HW.
  rewrite bool_decide_eq_true_2 by done.
  assert (Hzero : 0 * opts.pad_width (self_p self) / 2 = 0)
    by (unfold Qcdiv; ring).
  by rewrite Hzero.
Qed.

Lemma centre_connector_placement_witness :
  let pc := set_loc 0 (- 1) _default_connection_pads in
  let self := one_pad_component pc in
  dict_get (opts.connection_pads (self_p self)) "a" = Some pc
  ∧ conn.loc_W pc = 0
  ∧ ∃ self', make_connection_pad "a" self = Ok tt self'
             ∧ length (self_qgeometry self') = 3%nat.
Proof.
  cbn zeta.
  set (pc := set_loc 0 (- 1) _default_connection_pads).
  assert (Hget : dict_get (opts.connection_pads (self_p (one_pad_component pc)))
                   "a" = Some pc) by reflexivity.
  assert (HW : conn.loc_W pc = 0) by reflexivity.
  do 2 (split; [assumption|]).
  destruct (centre_connector_placement "a" pc (one_pad_component pc) Hget HW)
    as (pad & wire & self' & _ & Hrun & Hrows).
  exists self'. split; [exact Hrun|].
  apply (f_equal length) in Hrows. rewrite length_fmap in Hrows.
  cbn in Hrows. exact Hrows.
Defined.

(** X18. The pin of a connector sits on its wire: the path whose last two
    points are handed to [add_pin] is the very path registered as the
    [_wire] and [_wire_sub] rows, it is a line string, and the pin has the
    width [cpw_width] of the wire row. *)
Theorem pin_on_registered_wire
    (name : string) (pc : conn.t) (self : component) :
  dict_get (opts.connection_pads (self_p self)) name = Some pc →
  ∃ pad_row wire_row sub_row self',
    make_connection_pad name self = Ok tt self'
    ∧ drop (length (self_qgeometry self)) (self_qgeometry self')
      = [pad_row; wire_row; sub_row]
    ∧ drop (length (self_pins self)) (self_pins self')
      = [mk_pin name (row_geometry wire_row) (conn.cpw_width pc) true]
    ∧ row_geometry sub_row = row_geometry wire_row
    ∧ is_line (row_geometry wire_row) = true
    ∧ row_width wire_row = Some (conn.cpw_width pc).
Proof.
  intros Hget.
  destruct (connector_rows_shapes (self_p self) name pc)
    as (xoff & cs & Hrows).
  destruct (connector_rows_eq (self_p self) name pc)
    as (pad & wire & _ & Hrows' & Hpins).
  rewrite Hrows in Hrows'. injection Hrows' as _ Hwire _.
  eexists _, _, _, _. split; [by apply make_connection_pad_spec|].
  cbn [self_qgeometry self_pins]. rewrite !drop_app_length.
  split; [exact Hrows|]. cbn [row_geometry row_width].
  split; [by rewrite Hpins, Hwire|]. done.
Qed.

Lemma pin_on_registered_wire_witness :
  let self := one_pad_component _default_connection_pads in
  dict_get (opts.connection_pads (self_p self)) "a"
  = Some _default_connection_pads
  ∧ ∃ self', make_connection_pad "a" self = Ok tt self'
             ∧ pin_name <$> self_pins self' = ["a"].
Proof.
  cbn zeta.
  assert (Hget : dict_get
                   (opts.connection_pads
                      (self_p (one_pad_component _default_connection_pads)))
                   "a"
                 = Some _default_connection_pads) by reflexivity.
  split; [exact Hget|].
  destruct (pin_on_registered_wire "a" _ _ Hget)
    as (r1 & r2 & r3 & self' & Hrun & _ & Hpins & _).
  exists self'. split; [exact Hrun|].
  cbn in Hpins. rewrite drop_0 in Hpins. by rewrite Hpins.
Defined.

(** X19. The wire of a side connector ([loc_W] nonzero) has four points: it
    starts on the y-axis, runs level for [pad_cpw_extent], rises by
    [pocket_rise], and ends with a level segment of length
    [pocket_extent + cpw_extend], which is the segment the pin takes. *)
Theorem side_wire_path (p : opts.t) (pc : conn.t) (cn_r : Qc) :
  conn.loc_W pc ≠ 0 →
  ∃ y0 x2 y1 x3,
    connection_pad_objects p pc cn_r !! 1%nat
    = Some (LineString
              [(0, y0); (conn.pad_cpw_extent pc, y0); (x2, y1); (x3, y1)])
    ∧ y1 - y0 = conn.pocket_rise pc
    ∧ x3 - x2 = conn.pocket_extent pc + conn.cpw_extend pc.
Proof.
  intros HW. unfold connection_pad_objects, float.
  rewrite bool_decide_eq_true_2 by done.
  eexists _, _, _, _. split; [reflexivity|]. split; ring.
Qed.

Lemma side_wire_path_witness :
  conn.loc_W _default_connection_pads ≠ 0
  ∧ ∃ cs, connection_pad_objects default_options _default_connection_pads 0
          !! 1%nat = Some (LineString cs)
          ∧ length cs = 4%nat.
Proof.
  assert (HW : conn.loc_W _default_connection_pads ≠ 0) by done.
  split; [exact HW|].
  destruct (side_wire_path default_options _default_connection_pads 0 HW)
    as (y0 & x2 & y1 & x3 & Hwire & _).
  eexists. split; [exact Hwire|reflexivity].
Defined.
